(** * Seat monitor (monitor.py): extractor, notifier and poll loop

    A shallow embedding of [src/monitor.py].

    - Python [int] values are unbounded: they are [Z].
    - A [str] is a [string]; in cell texts each character stands for one
      code point below 256, which fixes what [str.strip] and [int] treat as
      white space and as a decimal digit.
    - A [<td>] cell is the list of its text nodes in document order;
      [get_text(strip=True)] strips each node, drops the empty ones and
      joins the rest.
    - Logging, the HTTP request, the alert command, the SMTP session,
      [time.sleep] and the thread start are recorded as events; what the
      outside world answers to one poll (HTTP response or exception, alert
      outcome, SMTP outcome) is an explicit input, a [world].
    - Exceptions are values of [exn]; [try]/[except] is [try_except] with the
      handler deciding by exception class. Exceptions enter at the three
      calls to the outside (request, alert command, SMTP session); logging
      and sleeping return normally.
    - [run] loops for ever: [run_loop] runs it against a finite list of
      worlds, one per iteration, and tells whether the loop is still
      running after them, was left by [break], or was left by an
      exception. *)

From Stdlib Require Import ZArith List String Ascii Bool Lia Sorted.
From Stdlib Require Import DecimalString.
Import ListNotations.
Open Scope string_scope.
Open Scope list_scope.
Open Scope Z_scope.

(** ** Exceptions, events and the effect type of the helper functions *)

Inductive exn : Type :=
| RequestException   (* requests.RequestException and its subclasses *)
| KeyboardInterrupt
| IndexError
| ValueError
| OSError.           (* also smtplib.SMTPException and socket errors *)

(** [except Exception]: every class above but [KeyboardInterrupt], which
    derives from [BaseException] only. *)
Definition is_Exception (e : exn) : bool :=
  match e with KeyboardInterrupt => false | _ => true end.

Definition is_RequestException (e : exn) : bool :=
  match e with RequestException => true | _ => false end.

Definition is_KeyboardInterrupt (e : exn) : bool :=
  match e with KeyboardInterrupt => true | _ => false end.

Definition is_IndexError_or_ValueError (e : exn) : bool :=
  match e with IndexError | ValueError => true | _ => false end.

Inductive level : Type := INFO | WARNING | ERROR.

(** Arguments of a lazily formatted log call. *)
Inductive arg : Type :=
| AStr (s : string)
| AInt (z : Z)
| AExn (e : exn).

Inductive event : Type :=
| Log (lvl : level) (fmt : string) (args : list arg)
| Post (url : string)
| Osascript (script : string)
| SendMail (subject body sender recipients : string)
| StartThread (title message : string)
| Sleep (secs : Z).

Inductive res (A : Type) : Type :=
| Ret (a : A)
| Raise (e : exn).
Arguments Ret {A} a.
Arguments Raise {A} e.

(** A computation that emits events and then returns or raises. *)
Definition io (A : Type) : Type := (list event * res A)%type.

Module IO.

Definition ret {A} (a : A) : io A := ([], Ret a).

Definition bind {A B} (m : io A) (k : A -> io B) : io B :=
  match m with
  | (evs, Ret a) => let (evs', r) := k a in (evs ++ evs', r)
  | (evs, Raise e) => (evs, Raise e)
  end.

Definition raise {A} (e : exn) : io A := ([], Raise e).

Definition emit (ev : event) : io unit := ([ev], Ret tt).

(** [try: body except <classes matched by h>: h e]; the handler re-raises
    what it does not catch. *)
Definition try_except {A} (body : io A) (h : exn -> io A) : io A :=
  match body with
  | (evs, Ret a) => (evs, Ret a)
  | (evs, Raise e) => let (evs', r) := h e in (evs ++ evs', r)
  end.

End IO.

Declare Scope io_scope.
Delimit Scope io_scope with io.
Notation "x <- m ;; k" := (IO.bind m (fun x => k))
  (at level 61, m at next level, right associativity) : io_scope.
Notation "m ;; k" := (IO.bind m (fun _ => k))
  (at level 61, right associativity) : io_scope.

Definition log (lvl : level) (fmt : string) (args : list arg) : io unit :=
  IO.emit (Log lvl fmt args).

(** ** Text primitives: [str.strip], [get_text(strip=True)], [int] *)

Definition code (c : ascii) : N := N_of_ascii c.

(** [str.isspace] on one code point below 256. *)
Definition py_isspace (c : ascii) : bool :=
  let n := code c in
  ((9 <=? n) && (n <=? 13) || (28 <=? n) && (n <=? 32)
   || (n =? 133) || (n =? 160))%N.

(** The white space [int] skips around a literal. *)
Definition int_isspace (c : ascii) : bool :=
  let n := code c in
  ((9 <=? n) && (n <=? 13) || (n =? 32) || (n =? 133) || (n =? 160))%N.

Definition is_digit (c : ascii) : bool :=
  let n := code c in ((48 <=? n) && (n <=? 57))%N.

Definition digit_value (c : ascii) : Z := Z.of_N (code c) - 48.

Fixpoint lstrip_by (sp : ascii -> bool) (s : string) : string :=
  match s with
  | EmptyString => EmptyString
  | String c s' => if sp c then lstrip_by sp s' else s
  end.

Fixpoint rstrip_by (sp : ascii -> bool) (s : string) : string :=
  match s with
  | EmptyString => EmptyString
  | String c s' =>
      match rstrip_by sp s' with
      | EmptyString => if sp c then EmptyString else String c EmptyString
      | r => String c r
      end
  end.

Definition strip_by (sp : ascii -> bool) (s : string) : string :=
  rstrip_by sp (lstrip_by sp s).

(** [s.strip()] *)
Definition strip (s : string) : string := strip_by py_isspace s.

Definition cell : Type := list string.

Definition nonempty (s : string) : bool :=
  match s with EmptyString => false | _ => true end.

(** [cell.get_text(strip=True)] *)
Definition get_text_strip (c : cell) : string :=
  String.concat "" (filter nonempty (map strip c)).

(** Digits of a base-10 literal, single underscores allowed between digits;
    [after_digit] tells whether the previous character was a digit. *)
Fixpoint digits (acc : Z) (after_digit : bool) (s : string) : option Z :=
  match s with
  | EmptyString => if after_digit then Some acc else None
  | String c s' =>
      if is_digit c then digits (10 * acc + digit_value c) true s'
      else if Ascii.eqb c "_"
           then if after_digit then digits acc false s' else None
           else None
  end.

(** [int(s)] as an option: [None] is [ValueError]. *)
Definition int_of_string (s : string) : option Z :=
  match strip_by int_isspace s with
  | String c r =>
      if Ascii.eqb c "+" then digits 0 false r
      else if Ascii.eqb c "-" then option_map Z.opp (digits 0 false r)
      else digits 0 false (String c r)
  | EmptyString => None
  end.

Definition py_int (s : string) : io Z :=
  match int_of_string s with
  | Some z => IO.ret z
  | None => IO.raise ValueError
  end.

(** [cells[k]] for [k >= 0]. *)
Definition py_index (cells : list cell) (k : nat) : io cell :=
  match nth_error cells k with
  | Some c => IO.ret c
  | None => IO.raise IndexError
  end.

(** [str(z)] *)
Definition str (z : Z) : string := NilZero.string_of_int (Z.to_int z).

(** ** Configuration *)

Definition TARGET_CRN : string := "31322".
Definition COURSE_NAME : string := "COSC 031 - Algorithms".
Definition CHECK_INTERVAL_SECONDS : Z := 5 * 60.
Definition MAX_BACKOFF_SECONDS : Z := 30 * 60.
Definition TIMETABLE_URL : string :=
  "https://oracle-www.dartmouth.edu/dart/groucho/timetable.display_courses".

(** ** Extractor: the cell scan of [fetch_enrollment] *)

(** The [try] block entered at index [i]. *)
Definition parse_at (cells : list cell) (i : nat) : io (option (Z * Z)) :=
  (lim_cell <- py_index cells (i + 15) ;;
   let lim_text := get_text_strip lim_cell in
   enrl_cell <- py_index cells (i + 16) ;;
   let enrl_text := get_text_strip enrl_cell in
   enrl <- py_int enrl_text ;;
   lim <- py_int lim_text ;;
   IO.ret (Some (enrl, lim)))%io.

Definition parse_handler (e : exn) : io (option (Z * Z)) :=
  if is_IndexError_or_ValueError e
  then (log WARNING "Found CRN %s but failed to parse Enrl/Lim: %s"
            [AStr TARGET_CRN; AExn e] ;;
        IO.ret None)%io
  else IO.raise e.

(** [for i, cell in enumerate(cells)], with [rest] the cells from index [i]
    on. *)
Fixpoint scan (cells : list cell) (i : nat) (rest : list cell)
  : io (option (Z * Z)) :=
  match rest with
  | [] =>
      (log WARNING "CRN %s not found in timetable response" [AStr TARGET_CRN] ;;
       IO.ret None)%io
  | c :: rest' =>
      if String.eqb (get_text_strip c) TARGET_CRN
      then IO.try_except (parse_at cells i) parse_handler
      else scan cells (S i) rest'
  end.

Definition extract (cells : list cell) : io (option (Z * Z)) :=
  scan cells 0%nat cells.

(** What the timetable server answers to one request: an exception out of
    [requests.post] or [raise_for_status], or a page given by its [<td>]
    cells. *)
Inductive http_outcome : Type :=
| HttpRaises (e : exn)
| HttpCells (cells : list cell).

Definition fetch_enrollment (h : http_outcome) : io (option (Z * Z)) :=
  (IO.emit (Post TIMETABLE_URL) ;;
   match h with
   | HttpRaises e => IO.raise e
   | HttpCells cells => extract cells
   end)%io.

(** ** Notifier *)

(** [subprocess.run] without [check=True]: the command ran and exited with
    some status, or it could not be started (or was interrupted). *)
Inductive alert_outcome : Type :=
| AlertExit (returncode : Z)
| AlertRaises (e : exn).

(** The SMTP session: the message was handed over, or some call of the
    session raised before that. *)
Inductive smtp_outcome : Type :=
| SmtpOk
| SmtpRaises (e : exn).

(** What the outside world answers during one poll. *)
Record world : Type := {
  http : http_outcome;
  alert : alert_outcome;
  smtp : smtp_outcome
}.

Definition nl : string := String (ascii_of_nat 10) EmptyString.
Definition dquote : string := String (ascii_of_nat 34) EmptyString.

Definition sleep (secs : Z) : io unit := IO.emit (Sleep secs).

Section Notifier.

(** [config.py] is not part of the sources: its constants are parameters. *)
Variable EMAIL_ADDRESS : string.
Variable FRIEND_EMAILS : list string.


Definition send_email (title message : string)
    (recipients : option (list string)) (s : smtp_outcome) : io unit :=
  let recipients :=
    match recipients with None => [EMAIL_ADDRESS] | Some r => r end in
  IO.try_except
    (let body :=
       (message ++ nl ++ nl ++ "Go enroll now!" ++ nl ++
        "https://oracle-www.dartmouth.edu/dart/groucho/timetable.main")%string in
     match s with
     | SmtpRaises e => IO.raise e
     | SmtpOk =>
         IO.emit (SendMail title body EMAIL_ADDRESS
                           (String.concat ", " recipients))
     end ;;
     log INFO "Email notification sent to %s"
         [AStr (String.concat ", " recipients)])%io
    (fun e =>
       if is_Exception e
       then log WARNING "Failed to send email to %s: %s"
                [AStr (String.concat ", " recipients); AExn e]
       else IO.raise e).


Definition alert_script (title message : string) : string :=
  ("display notification " ++ dquote ++ message ++ dquote ++
   " with title " ++ dquote ++ title ++ dquote ++
   " sound name " ++ dquote ++ "Glass" ++ dquote)%string.

Definition notify (title message : string) (w : world) : io unit :=
  (IO.emit (Osascript (alert_script title message)) ;;
   match alert w with
   | AlertExit _ => IO.ret tt
   | AlertRaises e => IO.raise e
   end ;;
   send_email title message None (smtp w) ;;
   IO.emit (StartThread title message))%io.

(** ** Loop controller *)

Record state : Type := {
  consecutive_failures : Z;
  notified : bool
}.

(** The body of [run] reads and writes its two local variables, emits
    events, and returns or raises; the variables keep their values when an
    exception reaches a handler. *)
Definition loop (A : Type) : Type := state -> (list event * state * res A)%type.

Definition lret {A} (a : A) : loop A := fun st => ([], st, Ret a).

Definition lbind {A B} (m : loop A) (k : A -> loop B) : loop B :=
  fun st =>
    match m st with
    | (evs, st', Ret a) =>
        let '(evs', st'', r) := k a st' in (evs ++ evs', st'', r)
    | (evs, st', Raise e) => (evs, st', Raise e)
    end.

Definition lift {A} (m : io A) : loop A :=
  fun st => let (evs, r) := m in (evs, st, r).

Definition get : loop state := fun st => ([], st, Ret st).
Definition put (st : state) : loop unit := fun _ => ([], st, Ret tt).
Definition lraise {A} (e : exn) : loop A := fun st => ([], st, Raise e).

Definition ltry {A} (body : loop A) (h : exn -> loop A) : loop A :=
  fun st =>
    match body st with
    | (evs, st', Ret a) => (evs, st', Ret a)
    | (evs, st', Raise e) =>
        let '(evs', st'', r) := h e st' in (evs ++ evs', st'', r)
    end.

Declare Scope loop_scope.
Delimit Scope loop_scope with loop.
Notation "x <- m ;; k" := (lbind m (fun x => k))
  (at level 61, m at next level, right associativity) : loop_scope.
Notation "m ;; k" := (lbind m (fun _ => k))
  (at level 61, right associativity) : loop_scope.

Definition set_failures (n : Z) : loop unit :=
  (st <- get ;; put {| consecutive_failures := n; notified := notified st |})%loop.

Definition set_notified (b : bool) : loop unit :=
  (st <- get ;;
   put {| consecutive_failures := consecutive_failures st; notified := b |})%loop.

(** [min(CHECK_INTERVAL_SECONDS * (2 ** n), MAX_BACKOFF_SECONDS)] *)
Definition backoff (n : Z) : Z :=
  Z.min (CHECK_INTERVAL_SECONDS * 2 ^ n) MAX_BACKOFF_SECONDS.

(** How control leaves the [try] statement of one iteration. *)
Inductive flow : Type :=
| Fallthrough   (* on to the sleep at the end of the loop body *)
| Continue      (* [continue] *)
| Break.        (* [break] *)

Definition spot_message (enrl lim : Z) : string :=
  let spots := lim - enrl in
  (str spots ++ " spot(s) open! Enrolled: " ++ str enrl ++ "/" ++ str lim)%string.

Definition spot_title : string := ("SPOT OPEN: " ++ COURSE_NAME)%string.

Definition try_body (w : world) : loop flow :=
  (result <- lift (fetch_enrollment (http w)) ;;
   match result with
   | None =>
       st <- get ;;
       set_failures (consecutive_failures st + 1) ;;
       st <- get ;;
       let wait := backoff (consecutive_failures st) in
       lift (log ERROR "Failed to fetch data. Retrying in %d seconds."
                 [AInt wait]) ;;
       lift (sleep wait) ;;
       lret Continue
   | Some (enrl, lim) =>
       set_failures 0 ;;
       lift (log INFO "%s — Enrolled: %d / Limit: %d"
                 [AStr COURSE_NAME; AInt enrl; AInt lim]) ;;
       if enrl <? lim then
         let msg := spot_message enrl lim in
         lift (log INFO "*** SPOT AVAILABLE *** %s" [AStr msg]) ;;
         lift (notify spot_title msg w) ;;
         st <- get ;;
         (if negb (notified st) then set_notified true else lret tt) ;;
         lret Fallthrough
       else
         st <- get ;;
         (if notified st
          then lift (log INFO "Class is full again." []) ;; set_notified false
          else lret tt) ;;
         lret Fallthrough
   end)%loop.

Definition handlers (e : exn) : loop flow :=
  if is_RequestException e then
    (st <- get ;;
     set_failures (consecutive_failures st + 1) ;;
     st <- get ;;
     let wait := backoff (consecutive_failures st) in
     lift (log ERROR "Request error: %s. Retrying in %d seconds."
               [AExn e; AInt wait]) ;;
     lift (sleep wait) ;;
     lret Continue)%loop
  else if is_KeyboardInterrupt e then
    (lift (log INFO "Stopped by user." []) ;; lret Break)%loop
  else lraise e.

(** One pass through the body of [while True]. *)
Definition iteration (w : world) : loop flow :=
  (f <- ltry (try_body w) handlers ;;
   match f with
   | Fallthrough => lift (sleep CHECK_INTERVAL_SECONDS) ;; lret Continue
   | Continue => lret Continue
   | Break => lret Break
   end)%loop.

Inductive status : Type :=
| Running             (* the loop is about to start its next iteration *)
| Stopped             (* left by [break] *)
| Crashed (e : exn).  (* an exception left [run] *)

(** The loop run against the answers [ws] of the outside world, one per
    iteration. *)
Fixpoint run_loop (ws : list world) (st : state)
  : list event * state * status :=
  match ws with
  | [] => ([], st, Running)
  | w :: ws' =>
      match iteration w st with
      | (evs, st', Ret Break) => (evs, st', Stopped)
      | (evs, st', Ret _) =>
          let '(evs', st'', s) := run_loop ws' st' in (evs ++ evs', st'', s)
      | (evs, st', Raise e) => (evs, st', Crashed e)
      end
  end.

Definition initial : state :=
  {| consecutive_failures := 0; notified := false |}.

Definition run (ws : list world) : list event * state * status :=
  let '(evs, st, s) := run_loop ws initial in
  ([Log INFO "Starting seat monitor for %s (CRN %s)"
        [AStr COURSE_NAME; AStr TARGET_CRN];
    Log INFO "Checking every %d seconds" [AInt CHECK_INTERVAL_SECONDS]]
   ++ evs, st, s).

End Notifier.

(** ** Vocabulary of the statements *)

(** The cell at index [i] carries the target identifier. *)
Definition match_at (cells : list cell) (i : nat) : Prop :=
  exists c, nth_error cells i = Some c /\ get_text_strip c = TARGET_CRN.

(** [i] is the first such index in document order. *)
Definition first_match (cells : list cell) (i : nat) : Prop :=
  match_at cells i /\ forall j, (j < i)%nat -> ~ match_at cells j.

(** The trimmed text of the cell at index [k], when there is one. *)
Definition text_at (cells : list cell) (k : nat) : option string :=
  option_map get_text_strip (nth_error cells k).

(** [int] accepts the text of the cell at index [k] and reads [z]. *)
Definition parses_at (cells : list cell) (k : nat) (z : Z) : Prop :=
  exists t, text_at cells k = Some t /\ int_of_string t = Some z.

(** The cell at index [k] is missing, or [int] rejects its text. *)
Definition unusable_at (cells : list cell) (k : nat) : Prop :=
  match text_at cells k with
  | None => True
  | Some t => int_of_string t = None
  end.

(** The text is a minus sign followed by a literal (after the white space
    [int] skips). *)
Definition minus_signed (t : string) : Prop :=
  exists r, strip_by int_isspace t = String "-" r.

Definition not_found_log : event :=
  Log WARNING "CRN %s not found in timetable response" [AStr TARGET_CRN].

Definition parse_failed_log (e : exn) : event :=
  Log WARNING "Found CRN %s but failed to parse Enrl/Lim: %s"
      [AStr TARGET_CRN; AExn e].

(** Number of alert commands among the events: [notify] issues exactly one
    per call and nothing else issues any. *)
Fixpoint notifier_calls (evs : list event) : nat :=
  match evs with
  | [] => 0
  | Osascript _ :: evs' => S (notifier_calls evs')
  | _ :: evs' => notifier_calls evs'
  end.

(** The events that only the notifier produces. *)
Definition is_notification (ev : event) : bool :=
  match ev with
  | Osascript _ | SendMail _ _ _ _ | StartThread _ _ => true
  | _ => false
  end.

(** The durations slept, in order. *)
Fixpoint sleeps (evs : list event) : list Z :=
  match evs with
  | [] => []
  | Sleep n :: evs' => n :: sleeps evs'
  | _ :: evs' => sleeps evs'
  end.

Definition status_log (e l : Z) : event :=
  Log INFO "%s — Enrolled: %d / Limit: %d" [AStr COURSE_NAME; AInt e; AInt l].

Definition spot_log (e l : Z) : event :=
  Log INFO "*** SPOT AVAILABLE *** %s" [AStr (spot_message e l)].

Definition full_again_log : event := Log INFO "Class is full again." [].

Definition fetch_failed_log (wait : Z) : event :=
  Log ERROR "Failed to fetch data. Retrying in %d seconds." [AInt wait].

Definition request_error_log (x : exn) (wait : Z) : event :=
  Log ERROR "Request error: %s. Retrying in %d seconds." [AExn x; AInt wait].

(** Events that neither notify nor sleep: log lines and the request. *)
Definition quiet_event (ev : event) : bool :=
  match ev with
  | Log _ _ _ | Post _ => true
  | _ => false
  end.

Definition quiet (evs : list event) : Prop :=
  Forall (fun ev => quiet_event ev = true) evs.

(** The poll of [w] fetched the pair [(e, l)]. *)
Definition polled (w : world) (e l : Z) : Prop :=
  exists evs, fetch_enrollment (http w) = (evs, Ret (Some (e, l))).

(** The poll of [w] failed: no pair could be extracted, or the request
    raised a [RequestException]. *)
Definition failed_poll (w : world) : Prop :=
  (exists evs, fetch_enrollment (http w) = (evs, Ret None)) \/
  (exists evs x, is_RequestException x = true /\
                 fetch_enrollment (http w) = (evs, Raise x)).

(** The pair a poll observed, if it was successful. *)
Definition observed (w : world) : option (Z * Z) :=
  match snd (fetch_enrollment (http w)) with
  | Ret (Some p) => Some p
  | _ => None
  end.

(** The pair observed by the most recent successful poll of a history. *)
Fixpoint last_observed (ws : list world) : option (Z * Z) :=
  match ws with
  | [] => None
  | w :: ws' =>
      match last_observed ws' with
      | Some p => Some p
      | None => observed w
      end
  end.

(** The waits of [k] failures in a row that start from failure count [n]. *)
Fixpoint waits_from (n : Z) (k : nat) : list Z :=
  match k with
  | O => []
  | S k' => backoff (n + 1) :: waits_from (n + 1) k'
  end.

(** The alert command could be run (whatever its exit status) and the SMTP
    session raised, if anything, an [Exception]. *)
Definition notify_returns (w : world) : Prop :=
  (exists c, alert w = AlertExit c) /\
  (forall x, smtp w = SmtpRaises x -> is_Exception x = true).

(** Number of events of one kind. *)
Definition count (p : event -> bool) (evs : list event) : nat :=
  List.length (filter p evs).

Definition is_request (ev : event) : bool :=
  match ev with Post _ => true | _ => false end.



Definition is_warning (ev : event) : bool :=
  match ev with Log WARNING _ _ => true | _ => false end.



(** The poll of [w] saw a free seat. *)
Definition open_poll (w : world) : bool :=
  match observed w with
  | Some (e, l) => e <? l
  | None => false
  end.



(** ** Sample pages *)

Definition filler : cell := ["x"].

(** The identifier followed by exactly sixteen cells, the last two numeric. *)
Definition page_sixteen : list cell :=
  [[TARGET_CRN]] ++ repeat filler 14 ++ [["10"]; ["8"]].

(** The identifier followed by seventeen cells. *)
Definition page_open : list cell :=
  [[" 31322 "]] ++ repeat filler 14 ++ [["10"]; [" 8"; " "]; filler].

(** The identifier twice in a row: the offsets of the first occurrence hit a
    non-numeric cell, those of the second hit two numeric cells. *)
Definition page_twice : list cell :=
  [[TARGET_CRN]; [TARGET_CRN]] ++ repeat filler 13 ++
  [["n/a"]; ["30"]; ["25"]; filler].

(** A negative enrolment count. *)
Definition page_negative : list cell :=
  [[TARGET_CRN]] ++ repeat filler 14 ++ [["10"]; ["-3"]].

(** A page without the identifier, and one cut short after it. *)
Definition page_without : list cell := repeat filler 20.
Definition page_short : list cell := [[TARGET_CRN]] ++ repeat filler 15.

Definition page_full : list cell :=
  [[TARGET_CRN]] ++ repeat filler 14 ++ [["10"]; ["10"]; filler].

(** A page whose cells carry their texts with other spacing and markup. *)
Definition page_open_padded : list cell :=
  [["31"; "322"]] ++ repeat ["  x"; ""] 14 ++ [["10 "]; ["8"]; ["x "]].

(** ** Sample worlds *)

Definition sample_address : string := "me@example.org".

Definition world_open : world :=
  {| http := HttpCells page_open; alert := AlertExit 0; smtp := SmtpOk |}.

Definition world_full : world :=
  {| http := HttpCells page_full; alert := AlertExit 0; smtp := SmtpOk |}.

Definition world_down : world :=
  {| http := HttpRaises RequestException; alert := AlertExit 0; smtp := SmtpOk |}.

Definition world_without : world :=
  {| http := HttpCells page_without; alert := AlertExit 0; smtp := SmtpOk |}.

(** The alert command exits with an error and the SMTP session fails. *)
Definition world_mail_down : world :=
  {| http := HttpCells page_open; alert := AlertExit 1;
     smtp := SmtpRaises OSError |}.


(** The alert command cannot be started. *)
Definition world_no_osascript : world :=
  {| http := HttpCells page_open; alert := AlertRaises OSError;
     smtp := SmtpOk |}.

(** ** The extractor *)

Section Extractor.

Lemma match_at_head (c : cell) (rest : list cell) :
  match_at (c :: rest) 0 <-> get_text_strip c = TARGET_CRN.
Proof.
  unfold match_at; simpl; split.
  - intros [c' [E H]]. now inversion E; subst.
  - intros H. now exists c.
Qed.

Lemma match_at_tail (c : cell) (rest : list cell) (i : nat) :
  match_at (c :: rest) (S i) <-> match_at rest i.
Proof. unfold match_at; simpl; tauto. Qed.

(** The scan passes over cells that do not match and enters the [try]
    block at the first one that does. *)
Lemma scan_first_match (cells pre : list cell) (c : cell) (post : list cell)
    (k : nat) :
  Forall (fun d => get_text_strip d <> TARGET_CRN) pre ->
  get_text_strip c = TARGET_CRN ->
  scan cells k (pre ++ c :: post)
  = IO.try_except (parse_at cells (k + List.length pre)) parse_handler.
Proof.
  intros Hpre Hc. revert k.
  induction Hpre as [|d pre Hd _ IH]; intros k; simpl.
  - rewrite Hc, String.eqb_refl, Nat.add_0_r. reflexivity.
  - destruct (String.eqb_spec (get_text_strip d) TARGET_CRN) as [E|_];
      [contradiction|].
    rewrite IH. now rewrite Nat.add_succ_r.
Qed.

Lemma scan_no_match (cells rest : list cell) (k : nat) :
  Forall (fun d => get_text_strip d <> TARGET_CRN) rest ->
  scan cells k rest = ([not_found_log], Ret None).
Proof.
  intros H. revert k. induction H as [|d rest Hd _ IH]; intros k; simpl.
  - reflexivity.
  - destruct (String.eqb_spec (get_text_strip d) TARGET_CRN) as [E|_];
      [contradiction|]. apply IH.
Qed.

Lemma first_match_split (cells : list cell) (i : nat) :
  first_match cells i ->
  exists pre c post,
    cells = pre ++ c :: post /\ List.length pre = i /\
    Forall (fun d => get_text_strip d <> TARGET_CRN) pre /\
    get_text_strip c = TARGET_CRN.
Proof.
  intros [[c [Hn Hc]] Hfirst].
  destruct (nth_error_split _ _ Hn) as [pre [post [E L]]].
  exists pre, c, post. repeat split; auto.
  apply Forall_forall. intros d Hin Hd.
  destruct (In_nth_error _ _ Hin) as [j Hj].
  assert (j < i)%nat.
  { rewrite <- L. apply nth_error_Some. congruence. }
  apply (Hfirst j); auto.
  exists d. split; auto.
  rewrite E, nth_error_app1; auto. now rewrite L.
Qed.

Lemma extract_at_first_match (cells : list cell) (i : nat) :
  first_match cells i ->
  extract cells = IO.try_except (parse_at cells i) parse_handler.
Proof.
  intros H. destruct (first_match_split _ _ H) as (pre & c & post & E & L & Hp & Hc).
  unfold extract. rewrite E at 2.
  rewrite (scan_first_match cells pre c post 0 Hp Hc). simpl. now rewrite L.
Qed.

(** Either no cell matches or some cell is the first to match. *)
Lemma match_or_not (cells : list cell) :
  Forall (fun d => get_text_strip d <> TARGET_CRN) cells \/
  exists i, first_match cells i.
Proof.
  induction cells as [|c rest IH].
  - left. constructor.
  - destruct (String.eqb_spec (get_text_strip c) TARGET_CRN) as [E|N].
    + right. exists 0%nat. split; [now apply match_at_head | lia].
    + destruct IH as [IH|[i [Hm Hf]]].
      * left. now constructor.
      * right. exists (S i). split; [now apply match_at_tail|].
        intros [|j] Hj.
        -- now rewrite match_at_head.
        -- rewrite match_at_tail. apply Hf. lia.
Qed.

(** The [try] block spelled out on the two offset cells. *)
Lemma parse_at_eq (cells : list cell) (i : nat) :
  parse_at cells i =
  match text_at cells (i + 15), text_at cells (i + 16) with
  | None, _ => ([], Raise IndexError)
  | Some _, None => ([], Raise IndexError)
  | Some lt, Some et =>
      match int_of_string et, int_of_string lt with
      | None, _ => ([], Raise ValueError)
      | Some _, None => ([], Raise ValueError)
      | Some e, Some l => ([], Ret (Some (e, l)))
      end
  end.
Proof.
  unfold parse_at, text_at, py_index, py_int.
  destruct (nth_error cells (i + 15)) as [cl|]; simpl; [|reflexivity].
  destruct (nth_error cells (i + 16)) as [ce|]; simpl; [|reflexivity].
  destruct (int_of_string (get_text_strip ce)); simpl; [|reflexivity].
  destruct (int_of_string (get_text_strip cl)); reflexivity.
Qed.

Lemma try_parse_present (cells : list cell) (i : nat) (e l : Z) :
  parses_at cells (i + 16) e -> parses_at cells (i + 15) l ->
  IO.try_except (parse_at cells i) parse_handler = ([], Ret (Some (e, l))).
Proof.
  intros [et [He1 He2]] [lt [Hl1 Hl2]].
  now rewrite parse_at_eq, Hl1, He1, He2, Hl2.
Qed.

Lemma try_parse_absent (cells : list cell) (i : nat) :
  unusable_at cells (i + 15) \/ unusable_at cells (i + 16) ->
  exists e, IO.try_except (parse_at cells i) parse_handler
            = ([parse_failed_log e], Ret None).
Proof.
  unfold unusable_at. rewrite parse_at_eq. intros H.
  destruct (text_at cells (i + 15)) as [lt|];
    [|exists IndexError; reflexivity].
  destruct (text_at cells (i + 16)) as [et|];
    [|exists IndexError; reflexivity].
  destruct (int_of_string et) as [e|];
    [|exists ValueError; reflexivity].
  destruct (int_of_string lt) as [l|];
    [|exists ValueError; reflexivity].
  destruct H; discriminate.
Qed.

(** The [try] block either yields a pair or is turned into [None]. *)
Lemma try_parse_cases (cells : list cell) (i : nat) :
  (exists e l, parses_at cells (i + 16) e /\ parses_at cells (i + 15) l /\
     IO.try_except (parse_at cells i) parse_handler = ([], Ret (Some (e, l))))
  \/
  ((unusable_at cells (i + 15) \/ unusable_at cells (i + 16)) /\
   exists x, IO.try_except (parse_at cells i) parse_handler
             = ([parse_failed_log x], Ret None)).
Proof.
  unfold parses_at, unusable_at. rewrite parse_at_eq.
  destruct (text_at cells (i + 15)) as [lt|];
    [|right; split; [now left | exists IndexError; reflexivity]].
  destruct (text_at cells (i + 16)) as [et|];
    [|right; split; [now right | exists IndexError; reflexivity]].
  destruct (int_of_string et) as [e|] eqn:Ee;
    [|right; split; [now right | exists ValueError; reflexivity]].
  destruct (int_of_string lt) as [l|] eqn:El;
    [|right; split; [now left | exists ValueError; reflexivity]].
  left. exists e, l. repeat split; eauto.
Qed.

End Extractor.

Section ExtractorClaims.

Lemma extract_present (cells : list cell) (i : nat) (e l : Z) :
  first_match cells i ->
  parses_at cells (i + 16) e -> parses_at cells (i + 15) l ->
  extract cells = ([], Ret (Some (e, l))).
Proof.
  intros Hf He Hl. rewrite (extract_at_first_match _ _ Hf).
  now apply try_parse_present.
Qed.

Lemma extract_absent (cells : list cell) (i : nat) :
  first_match cells i ->
  unusable_at cells (i + 15) \/ unusable_at cells (i + 16) ->
  exists x, extract cells = ([parse_failed_log x], Ret None).
Proof.
  intros Hf Hu. rewrite (extract_at_first_match _ _ Hf).
  now apply try_parse_absent.
Qed.

Lemma unusable_out_of_range (cells : list cell) (k : nat) :
  (List.length cells <= k)%nat -> unusable_at cells k.
Proof.
  intros H. unfold unusable_at, text_at.
  now rewrite (proj2 (nth_error_None cells k) H).
Qed.

Lemma digit_value_nonneg (c : ascii) : is_digit c = true -> 0 <= digit_value c.
Proof.
  unfold is_digit, digit_value. intros H.
  apply andb_prop in H as [H _]. apply N.leb_le in H. lia.
Qed.

Lemma digits_nonneg (s : string) :
  forall acc b z, 0 <= acc -> digits acc b s = Some z -> 0 <= z.
Proof.
  induction s as [|c s IH]; intros acc b z Hacc; cbn [digits].
  - destruct b; [intros [= <-]; assumption | discriminate].
  - destruct (is_digit c) eqn:Ed.
    + apply IH. pose proof (digit_value_nonneg c Ed). lia.
    + destruct (Ascii.eqb c "_"); [|discriminate].
      destruct b; [|discriminate]. now apply IH.
Qed.

(** [int] yields a negative value only from a text with a minus sign. *)
Lemma int_of_string_negative (t : string) (z : Z) :
  int_of_string t = Some z -> z < 0 -> minus_signed t.
Proof.
  unfold int_of_string, minus_signed.
  destruct (strip_by int_isspace t) as [|c r]; [discriminate|].
  destruct (Ascii.eqb_spec c "+") as [_|_].
  - intros H Hz. apply digits_nonneg in H; lia.
  - destruct (Ascii.eqb_spec c "-") as [->|_].
    + intros _ _. now exists r.
    + intros H Hz. apply digits_nonneg in H; lia.
Qed.

(** C2 (as amended). When the first cell whose trimmed text is the target
    identifier has at least 17 cells after it, and the cells at offsets +15
    and +16 from it parse as non-negative integers, the extractor returns
    exactly (enrolled, limit), enrolled read at +16 and limit at +15. *)
Theorem extract_reads_offsets (cells : list cell) (i : nat) (e l : Z) :
  first_match cells i ->
  (i + 17 < List.length cells)%nat ->
  parses_at cells (i + 16) e -> parses_at cells (i + 15) l ->
  0 <= e -> 0 <= l ->
  extract cells = ([], Ret (Some (e, l))).
Proof. intros Hf _ He Hl _ _. now apply (extract_present cells i). Qed.

Lemma page_open_first : first_match page_open 0.
Proof.
  split; [|intros j Hj; inversion Hj].
  exists [" 31322 "]. split; reflexivity.
Defined.

Lemma extract_reads_offsets_witness :
  extract page_open = ([], Ret (Some (8, 10))).
Proof.
  apply (extract_reads_offsets page_open 0 8 10).
  - exact page_open_first.
  - simpl; lia.
  - exists "8". split; reflexivity.
  - exists "10". split; reflexivity.
  - lia.
  - lia.
Defined.

(** C2 as stated fails when the identifier occurs twice: on [page_twice] the
    cell at index 1 matches, 17 cells follow it and its offset cells read
    (25, 30), yet the extractor answers with the first occurrence, whose
    limit cell is not numeric. *)
Lemma extract_some_match_refuted :
  match_at page_twice 1 /\
  (1 + 17 < List.length page_twice)%nat /\
  parses_at page_twice (1 + 16) 25 /\ parses_at page_twice (1 + 15) 30 /\
  0 <= 25 /\ 0 <= 30 /\
  extract page_twice <> ([], Ret (Some (25, 30))) /\
  extract page_twice = ([parse_failed_log ValueError], Ret None).
Proof.
  repeat split; try (simpl; lia).
  - exists [TARGET_CRN]. split; reflexivity.
  - exists "25". split; reflexivity.
  - exists "30". split; reflexivity.
  - discriminate.
Qed.

(** C4 (as amended). The extractor never raises and never returns half a
    pair. With no matching cell it returns [None] (not found). When fewer
    than 16 cells come after the first match, or one of its two offset cells
    is missing or rejected by [int], it returns [None] after a warning. *)
Theorem extract_never_raises (cells : list cell) :
  (exists evs r, extract cells = (evs, Ret r)) /\
  ((forall i, ~ match_at cells i) ->
   extract cells = ([not_found_log], Ret None)) /\
  (forall i, first_match cells i ->
     (List.length cells - (i + 1) < 16)%nat \/
     unusable_at cells (i + 15) \/ unusable_at cells (i + 16) ->
     exists x, extract cells = ([parse_failed_log x], Ret None)).
Proof.
  split; [|split].
  - destruct (match_or_not cells) as [H|[i H]].
    + unfold extract. rewrite (scan_no_match _ _ _ H). eauto.
    + rewrite (extract_at_first_match _ _ H).
      destruct (try_parse_cases cells i) as [(e & l & _ & _ & ->)|[_ [x ->]]];
        eauto.
  - intros Hno. unfold extract. apply scan_no_match.
    apply Forall_forall. intros d Hin Hd.
    destruct (In_nth_error _ _ Hin) as [j Hj].
    apply (Hno j). now exists d.
  - intros i Hf [Hlen|Hu]; apply (extract_absent cells i Hf); auto.
    right. apply unusable_out_of_range. lia.
Qed.

Lemma extract_never_raises_witness :
  extract page_without = ([not_found_log], Ret None) /\
  (exists x, extract page_short = ([parse_failed_log x], Ret None)) /\
  (exists x, extract page_twice = ([parse_failed_log x], Ret None)).
Proof.
  split; [|split].
  - apply (proj1 (proj2 (extract_never_raises page_without))).
    intros i [c [Hn Hc]]. apply nth_error_In in Hn.
    apply repeat_spec in Hn. subst c. discriminate.
  - apply (proj2 (proj2 (extract_never_raises page_short)) 0%nat).
    + split; [exists [TARGET_CRN]; split; reflexivity | intros j Hj; inversion Hj].
    + left. simpl. lia.
  - apply (proj2 (proj2 (extract_never_raises page_twice)) 0%nat).
    + split; [exists [TARGET_CRN]; split; reflexivity | intros j Hj; inversion Hj].
    + right. left. reflexivity.
Defined.

(** C4 as stated fails at its bound: on [page_sixteen] only 16 cells (fewer
    than 17) come after the match, and the extractor returns a pair. *)
Lemma extract_sixteen_cells_refuted :
  first_match page_sixteen 0 /\
  (List.length page_sixteen - (0 + 1) < 17)%nat /\
  extract page_sixteen = ([], Ret (Some (8, 10))).
Proof.
  split; [|split].
  - split; [exists [TARGET_CRN]; split; reflexivity | intros j Hj; inversion Hj].
  - simpl. lia.
  - reflexivity.
Qed.

(** C8 (as amended). A present result carries the integers that [int] reads
    from the cells at offsets +16 (enrolled) and +15 (limit) of the first
    match; a component is negative only when its cell text has a minus
    sign. The sign is not checked: whatever two integers the offset cells of
    the first match denote, negative ones included, are returned. *)
Theorem extract_present_values (cells : list cell) :
  (forall evs e l, extract cells = (evs, Ret (Some (e, l))) ->
     exists i, first_match cells i /\
       parses_at cells (i + 16) e /\ parses_at cells (i + 15) l /\
       (e < 0 -> exists t, text_at cells (i + 16) = Some t /\ minus_signed t) /\
       (l < 0 -> exists t, text_at cells (i + 15) = Some t /\ minus_signed t)) /\
  (forall i e l, first_match cells i ->
     parses_at cells (i + 16) e -> parses_at cells (i + 15) l ->
     extract cells = ([], Ret (Some (e, l)))).
Proof.
  split; [|intros i e l; apply extract_present].
  intros evs e l H.
  destruct (match_or_not cells) as [Hno|[i Hf]].
  - unfold extract in H. rewrite (scan_no_match _ _ _ Hno) in H. discriminate.
  - exists i. split; [assumption|].
    rewrite (extract_at_first_match _ _ Hf) in H.
    destruct (try_parse_cases cells i)
      as [(e' & l' & He & Hl & E)|[_ [x E]]]; rewrite E in H; [|discriminate].
    injection H as _ <- <-.
    repeat split; auto.
    + intros Hneg. destruct He as [t [Ht Hi]]. exists t. split; auto.
      now apply (int_of_string_negative t e').
    + intros Hneg. destruct Hl as [t [Ht Hi]]. exists t. split; auto.
      now apply (int_of_string_negative t l').
Qed.

Lemma extract_present_values_witness :
  extract page_negative = ([], Ret (Some (-3, 10))) /\
  exists t, text_at page_negative 16 = Some t /\ minus_signed t.
Proof.
  assert (Hf : first_match page_negative 0).
  { split; [exists [TARGET_CRN]; split; reflexivity | intros j Hj; inversion Hj]. }
  assert (E : extract page_negative = ([], Ret (Some (-3, 10)))).
  { apply (proj2 (extract_present_values page_negative) 0%nat (-3) 10 Hf).
    - exists "-3". split; reflexivity.
    - exists "10". split; reflexivity. }
  split; [exact E|].
  destruct (proj1 (extract_present_values page_negative) _ _ _ E)
    as (i & Hi & _ & _ & Hneg & _).
  assert (i = 0)%nat as ->.
  { destruct i as [|i]; [reflexivity|].
    exfalso. apply (proj2 Hi 0%nat); [lia | apply Hf]. }
  apply Hneg. lia.
Defined.

(** C8 as stated fails: the text "-3" denotes a negative integer and yields
    a present result with enrolled = -3. *)
Lemma extract_negative_refuted :
  text_at page_negative 16 = Some "-3" /\
  extract page_negative = ([], Ret (Some (-3, 10))) /\ -3 < 0.
Proof. repeat split. Qed.

(** C10. The extractor settles on the first cell, in document order, whose
    trimmed text is the target identifier: its answer is that of the [try]
    block entered there. When an offset cell of that first match is missing
    or not numeric the answer is [None], whatever later occurrence of the
    identifier there is and whatever its offset cells hold. *)
Theorem extract_first_match_only (cells : list cell) (i : nat) :
  first_match cells i ->
  extract cells = IO.try_except (parse_at cells i) parse_handler /\
  (unusable_at cells (i + 15) \/ unusable_at cells (i + 16) ->
   forall j e l, (i < j)%nat -> match_at cells j ->
     parses_at cells (j + 16) e -> parses_at cells (j + 15) l ->
     exists x, extract cells = ([parse_failed_log x], Ret None)).
Proof.
  intros Hf. split; [now apply extract_at_first_match|].
  intros Hu j e l _ _ _ _. now apply (extract_absent cells i).
Qed.

Lemma extract_first_match_only_witness :
  exists x, extract page_twice = ([parse_failed_log x], Ret None).
Proof.
  assert (Hf : first_match page_twice 0).
  { split; [exists [TARGET_CRN]; split; reflexivity | intros j Hj; inversion Hj]. }
  apply (proj2 (extract_first_match_only page_twice 0 Hf)
           (or_introl eq_refl) 1%nat 25 30).
  - lia.
  - exists [TARGET_CRN]. split; reflexivity.
  - exists "25". split; reflexivity.
  - exists "30". split; reflexivity.
Defined.

End ExtractorClaims.

(** ** More on the extractor *)

Section ExtractorMore.

Lemma text_at_map (cells : list cell) (k : nat) :
  text_at cells k = nth_error (map get_text_strip cells) k.
Proof. unfold text_at. now rewrite nth_error_map. Qed.

Lemma try_parse_texts (cells cells' : list cell) (i j : nat) :
  text_at cells (i + 15) = text_at cells' (j + 15) ->
  text_at cells (i + 16) = text_at cells' (j + 16) ->
  IO.try_except (parse_at cells i) parse_handler
  = IO.try_except (parse_at cells' j) parse_handler.
Proof. intros H15 H16. now rewrite !parse_at_eq, H15, H16. Qed.

Lemma scan_texts (cells cells' : list cell) :
  map get_text_strip cells = map get_text_strip cells' ->
  forall rest rest' k,
    map get_text_strip rest = map get_text_strip rest' ->
    scan cells k rest = scan cells' k rest'.
Proof.
  intros Hall. induction rest as [|c rest IH]; intros [|c' rest'] k H;
    try discriminate; [reflexivity|].
  injection H as Hc Hrest. cbn [scan]. rewrite Hc.
  destruct (String.eqb (get_text_strip c') TARGET_CRN); [|now apply IH].
  apply try_parse_texts; now rewrite !text_at_map, Hall.
Qed.

(** X1. The scan sees a cell only through its trimmed text: two pages
    whose cells have the same trimmed texts give the same result and the
    same log lines, whatever the spacing and the split into text nodes. *)
Theorem extract_texts_only (cells cells' : list cell) :
  map get_text_strip cells = map get_text_strip cells' ->
  extract cells = extract cells'.
Proof. intros H. unfold extract. now apply scan_texts. Qed.

Lemma extract_texts_only_witness :
  extract page_open_padded = extract page_open.
Proof. apply (extract_texts_only page_open_padded page_open). reflexivity. Defined.

Lemma scan_skip (cells pre rest : list cell) (k : nat) :
  Forall (fun d => get_text_strip d <> TARGET_CRN) pre ->
  scan cells k (pre ++ rest) = scan cells (k + List.length pre) rest.
Proof.
  intros H. revert k. induction H as [|d pre Hd _ IH]; intros k; simpl.
  - now rewrite Nat.add_0_r.
  - destruct (String.eqb_spec (get_text_strip d) TARGET_CRN) as [E|_];
      [contradiction|].
    rewrite IH. now rewrite Nat.add_succ_r.
Qed.

Lemma text_at_shift (pre cells : list cell) (k : nat) :
  text_at (pre ++ cells) (List.length pre + k) = text_at cells k.
Proof.
  unfold text_at. rewrite nth_error_app2 by lia.
  now replace (List.length pre + k - List.length pre)%nat with k by lia.
Qed.

Lemma scan_shift (pre cells rest : list cell) (k : nat) :
  scan (pre ++ cells) (List.length pre + k) rest = scan cells k rest.
Proof.
  revert k. induction rest as [|c rest IH]; intros k; cbn [scan];
    [reflexivity|].
  destruct (String.eqb (get_text_strip c) TARGET_CRN).
  - apply try_parse_texts;
      rewrite <- Nat.add_assoc; apply text_at_shift.
  - rewrite <- IH. now rewrite Nat.add_succ_r.
Qed.

(** X2. Cells in front of the record that do not carry the identifier are
    skipped and change nothing: the offsets are taken from the match, not
    from the start of the page. *)
Theorem extract_skips_prefix (pre cells : list cell) :
  Forall (fun d => get_text_strip d <> TARGET_CRN) pre ->
  extract (pre ++ cells) = extract cells.
Proof.
  intros H. unfold extract.
  rewrite (scan_skip (pre ++ cells) pre cells 0 H). simpl.
  rewrite <- (Nat.add_0_r (List.length pre)). apply scan_shift.
Qed.

Lemma extract_skips_prefix_witness :
  extract (page_without ++ page_negative) = ([], Ret (Some (-3, 10))).
Proof.
  rewrite (extract_skips_prefix page_without page_negative).
  - reflexivity.
  - apply Forall_forall. intros d Hd. apply repeat_spec in Hd. subst d.
    discriminate.
Defined.

Lemma first_match_app (cells more : list cell) (i : nat) :
  first_match cells i -> first_match (cells ++ more) i.
Proof.
  intros [[c [Hn Hc]] Hfirst].
  assert (Hi : (i < List.length cells)%nat)
    by (apply nth_error_Some; congruence).
  split.
  - exists c. split; [|exact Hc]. now rewrite nth_error_app1.
  - intros j Hj [d [Hd Hm]]. apply (Hfirst j Hj). exists d. split; [|exact Hm].
    rewrite nth_error_app1 in Hd by lia. exact Hd.
Qed.

Lemma text_at_app1 (cells more : list cell) (k : nat) :
  (k < List.length cells)%nat -> text_at (cells ++ more) k = text_at cells k.
Proof. intros H. unfold text_at. now rewrite nth_error_app1. Qed.

(** X3. Once the page reaches the enrolment cell of the first match,
    nothing that comes after it matters: further cells, further
    occurrences of the identifier included, leave the result as it is. *)
Theorem extract_ignores_rest (cells more : list cell) (i : nat) :
  first_match cells i ->
  (i + 16 < List.length cells)%nat ->
  extract (cells ++ more) = extract cells.
Proof.
  intros Hf Hlen.
  rewrite (extract_at_first_match _ _ (first_match_app _ more _ Hf)).
  rewrite (extract_at_first_match _ _ Hf).
  apply try_parse_texts; apply text_at_app1; lia.
Qed.

Lemma extract_ignores_rest_witness :
  extract (page_sixteen ++ page_twice) = extract page_sixteen.
Proof.
  apply (extract_ignores_rest page_sixteen page_twice 0).
  - split; [exists [TARGET_CRN]; split; reflexivity | intros j Hj; inversion Hj].
  - simpl. lia.
Defined.

Lemma extract_log_shape (cells : list cell) :
  (exists p, extract cells = ([], Ret (Some p))) \/
  (exists fmt args, extract cells = ([Log WARNING fmt args], Ret None)).
Proof.
  destruct (match_or_not cells) as [H|[i H]].
  - right. unfold extract. rewrite (scan_no_match _ _ _ H).
    unfold not_found_log. eauto.
  - rewrite (extract_at_first_match _ _ H).
    destruct (try_parse_cases cells i) as [(e & l & _ & _ & ->)|[_ [x ->]]].
    + left. eauto.
    + right. unfold parse_failed_log. eauto.
Qed.

(** X4. Every absent result is announced by exactly one warning line and a
    present result logs nothing: the scan never fails silently and never
    warns about a pair it returns. *)
Theorem extract_warns_iff_absent (cells : list cell) (evs : list event)
    (r : option (Z * Z)) :
  extract cells = (evs, Ret r) ->
  count is_warning evs = match r with Some _ => 0 | None => 1 end%nat /\
  List.length evs = match r with Some _ => 0 | None => 1 end%nat.
Proof.
  destruct (extract_log_shape cells) as [[p ->]|(f & a & ->)];
    intros [= <- <-]; split; reflexivity.
Qed.

Lemma extract_warns_iff_absent_witness :
  count is_warning (fst (extract page_short)) = 1%nat /\
  count is_warning (fst (extract page_open)) = 0%nat.
Proof.
  split.
  - apply (extract_warns_iff_absent page_short _ None). reflexivity.
  - apply (extract_warns_iff_absent page_open _ (Some (8, 10))). reflexivity.
Defined.


End ExtractorMore.

(** ** The notifier and the poll loop *)

Section Loop.

Variable EMAIL_ADDRESS : string.

Local Abbreviation notify' := (notify EMAIL_ADDRESS).
Local Abbreviation iteration' := (iteration EMAIL_ADDRESS).
Local Abbreviation run_loop' := (run_loop EMAIL_ADDRESS).

Lemma notifier_calls_app (xs ys : list event) :
  notifier_calls (xs ++ ys) = (notifier_calls xs + notifier_calls ys)%nat.
Proof.
  induction xs as [|[] xs IH]; simpl; congruence.
Qed.

Lemma sleeps_app (xs ys : list event) :
  sleeps (xs ++ ys) = sleeps xs ++ sleeps ys.
Proof.
  induction xs as [|[] xs IH]; simpl; congruence.
Qed.

Lemma quiet_calls (evs : list event) : quiet evs -> notifier_calls evs = 0%nat.
Proof.
  induction 1 as [|[] evs H _ IH]; simpl in *; auto; discriminate.
Qed.

Lemma quiet_sleeps (evs : list event) : quiet evs -> sleeps evs = [].
Proof.
  induction 1 as [|[] evs H _ IH]; simpl in *; auto; discriminate.
Qed.

Lemma quiet_silent (evs : list event) :
  quiet evs -> Forall (fun ev => is_notification ev = false) evs.
Proof.
  induction 1 as [|[] evs H _ IH]; constructor; auto; discriminate.
Qed.

(** The three ways the cell scan ends. *)
Lemma extract_outcomes (cells : list cell) :
  extract cells = ([not_found_log], Ret None) \/
  (exists e l, extract cells = ([], Ret (Some (e, l)))) \/
  (exists x, extract cells = ([parse_failed_log x], Ret None)).
Proof.
  destruct (match_or_not cells) as [H|[i H]].
  - left. apply scan_no_match, H.
  - right. rewrite (extract_at_first_match _ _ H).
    destruct (try_parse_cases cells i) as [(e & l & _ & _ & ->)|[_ [x ->]]];
      eauto.
Qed.

Lemma fetch_enrollment_quiet (h : http_outcome) :
  quiet (fst (fetch_enrollment h)).
Proof.
  destruct h as [x|cells]; unfold fetch_enrollment; simpl.
  - repeat constructor.
  - destruct (extract_outcomes cells) as [->|[(e & l & ->)|[x ->]]];
      repeat constructor.
Qed.

(** [notify] spelled out on the answers of the outside world. *)
Lemma notify_eq (title message : string) (w : world) :
  notify' title message w =
  let call := Osascript (alert_script title message) in
  let body := (message ++ nl ++ nl ++ "Go enroll now!" ++ nl ++
      "https://oracle-www.dartmouth.edu/dart/groucho/timetable.main")%string in
  match alert w with
  | AlertRaises x => ([call], Raise x)
  | AlertExit _ =>
      match smtp w with
      | SmtpOk =>
          ([call; SendMail title body EMAIL_ADDRESS EMAIL_ADDRESS;
            Log INFO "Email notification sent to %s" [AStr EMAIL_ADDRESS];
            StartThread title message], Ret tt)
      | SmtpRaises x =>
          if is_Exception x
          then ([call;
                 Log WARNING "Failed to send email to %s: %s"
                     [AStr EMAIL_ADDRESS; AExn x];
                 StartThread title message], Ret tt)
          else ([call], Raise x)
      end
  end.
Proof.
  unfold notify, send_email.
  destruct (alert w) as [c|x]; [|reflexivity].
  destruct (smtp w) as [|x]; [reflexivity|].
  destruct x; reflexivity.
Qed.


Lemma notify_returns_ret (title message : string) (w : world) :
  notify_returns w ->
  exists nevs, notify' title message w = (nevs, Ret tt) /\ sleeps nevs = [].
Proof.
  intros [[c Ha] Hs]. rewrite notify_eq, Ha.
  destruct (smtp w) as [|x]; simpl; [eauto|].
  rewrite (Hs x eq_refl). eauto.
Qed.

(** *** One iteration, case by case *)

Lemma iteration_absent (w : world) (st : state) (fevs : list event) :
  fetch_enrollment (http w) = (fevs, Ret None) ->
  iteration' w st =
  (fevs ++ [fetch_failed_log (backoff (consecutive_failures st + 1));
            Sleep (backoff (consecutive_failures st + 1))],
   {| consecutive_failures := consecutive_failures st + 1;
      notified := notified st |},
   Ret Continue).
Proof.
  intros F. unfold iteration, ltry, try_body, lbind, lift. rewrite F.
  cbn. now rewrite app_nil_r.
Qed.

Lemma iteration_request_error (w : world) (st : state) (fevs : list event)
    (x : exn) :
  fetch_enrollment (http w) = (fevs, Raise x) ->
  is_RequestException x = true ->
  iteration' w st =
  (fevs ++ [request_error_log x (backoff (consecutive_failures st + 1));
            Sleep (backoff (consecutive_failures st + 1))],
   {| consecutive_failures := consecutive_failures st + 1;
      notified := notified st |},
   Ret Continue).
Proof.
  intros F Hx. unfold iteration, ltry, try_body, lbind, lift, handlers.
  rewrite F, Hx. cbn. now rewrite app_nil_r.
Qed.

Lemma iteration_interrupted (w : world) (st : state) (fevs : list event) :
  fetch_enrollment (http w) = (fevs, Raise KeyboardInterrupt) ->
  iteration' w st = (fevs ++ [Log INFO "Stopped by user." []], st, Ret Break).
Proof.
  intros F. unfold iteration, ltry, try_body, lbind, lift, handlers.
  rewrite F. cbn. now rewrite app_nil_r.
Qed.

Lemma iteration_uncaught (w : world) (st : state) (fevs : list event)
    (x : exn) :
  fetch_enrollment (http w) = (fevs, Raise x) ->
  is_RequestException x = false -> is_KeyboardInterrupt x = false ->
  iteration' w st = (fevs, st, Raise x).
Proof.
  intros F H1 H2. unfold iteration, ltry, try_body, lbind, lift, handlers.
  rewrite F, H1, H2. cbn. now rewrite app_nil_r.
Qed.

Lemma iteration_full (w : world) (st : state) (fevs : list event) (e l : Z) :
  fetch_enrollment (http w) = (fevs, Ret (Some (e, l))) ->
  l <= e ->
  iteration' w st =
  (fevs ++ [status_log e l] ++
   (if notified st then [full_again_log] else []) ++
   [Sleep CHECK_INTERVAL_SECONDS],
   {| consecutive_failures := 0; notified := false |},
   Ret Continue).
Proof.
  intros F Hle. unfold iteration, ltry, try_body, lbind, lift. rewrite F.
  apply Z.ltb_ge in Hle. rewrite Hle.
  destruct st as [n [|]]; cbn; rewrite <- ?app_assoc; reflexivity.
Qed.

Lemma iteration_open (w : world) (st : state) (fevs nevs : list event)
    (e l : Z) :
  fetch_enrollment (http w) = (fevs, Ret (Some (e, l))) ->
  e < l ->
  notify' spot_title (spot_message e l) w = (nevs, Ret tt) ->
  iteration' w st =
  (fevs ++ [status_log e l; spot_log e l] ++ nevs ++
   [Sleep CHECK_INTERVAL_SECONDS],
   {| consecutive_failures := 0; notified := true |},
   Ret Continue).
Proof.
  intros F Hlt N. unfold iteration, ltry, try_body, lbind, lift. rewrite F.
  apply Z.ltb_lt in Hlt. rewrite Hlt, N.
  destruct st as [n [|]]; cbn -[spot_message spot_title];
    rewrite <- ?app_assoc, ?app_nil_r; reflexivity.
Qed.

(** When [notify] raises, the handlers of [run] see the exception with the
    failure count already reset and the flag not yet touched. *)
Lemma iteration_open_raise (w : world) (st : state) (fevs nevs : list event)
    (e l : Z) (x : exn) :
  fetch_enrollment (http w) = (fevs, Ret (Some (e, l))) ->
  e < l ->
  notify' spot_title (spot_message e l) w = (nevs, Raise x) ->
  iteration' w st =
  match x with
  | RequestException =>
      (fevs ++ [status_log e l; spot_log e l] ++ nevs ++
       [request_error_log x (backoff 1); Sleep (backoff 1)],
       {| consecutive_failures := 1; notified := notified st |},
       Ret Continue)
  | KeyboardInterrupt =>
      (fevs ++ [status_log e l; spot_log e l] ++ nevs ++
       [Log INFO "Stopped by user." []],
       {| consecutive_failures := 0; notified := notified st |},
       Ret Break)
  | _ =>
      (fevs ++ [status_log e l; spot_log e l] ++ nevs,
       {| consecutive_failures := 0; notified := notified st |},
       Raise x)
  end.
Proof.
  intros F Hlt N. unfold iteration, ltry, try_body, lbind, lift. rewrite F.
  apply Z.ltb_lt in Hlt. rewrite Hlt, N.
  destruct x; cbn -[spot_message spot_title];
    rewrite <- ?app_assoc, ?app_nil_r; reflexivity.
Qed.

(** *** Backoff *)

Lemma backoff_le_max (n : Z) : backoff n <= MAX_BACKOFF_SECONDS.
Proof. unfold backoff. apply Z.le_min_r. Qed.

Lemma backoff_mono (n : Z) : 0 <= n -> backoff n <= backoff (n + 1).
Proof.
  intros Hn. unfold backoff. apply Z.min_le_compat_r.
  rewrite Z.pow_add_r by lia.
  assert (0 < 2 ^ n) by (apply Z.pow_pos_nonneg; lia).
  unfold CHECK_INTERVAL_SECONDS. lia.
Qed.

Lemma waits_bounded (k : nat) :
  forall n, Forall (fun s => s <= MAX_BACKOFF_SECONDS) (waits_from n k).
Proof.
  induction k as [|k IH]; intros n; simpl; constructor;
    [apply backoff_le_max | apply IH].
Qed.

Lemma waits_sorted (k : nat) :
  forall n, 0 <= n -> Sorted Z.le (waits_from n k).
Proof.
  induction k as [|k IH]; intros n Hn; simpl; constructor.
  - apply IH. lia.
  - destruct k; simpl; constructor. apply backoff_mono. lia.
Qed.

Lemma iteration_failed (w : world) (st : state) :
  failed_poll w ->
  exists evs lg,
    quiet evs /\ quiet_event lg = true /\
    iteration' w st =
    (evs ++ [lg; Sleep (backoff (consecutive_failures st + 1))],
     {| consecutive_failures := consecutive_failures st + 1;
        notified := notified st |},
     Ret Continue).
Proof.
  pose proof (fetch_enrollment_quiet (http w)) as Q.
  intros [[fevs F]|(fevs & x & Hx & F)]; rewrite F in Q; simpl in Q.
  - exists fevs, (fetch_failed_log (backoff (consecutive_failures st + 1))).
    repeat split; auto. now apply iteration_absent.
  - exists fevs, (request_error_log x (backoff (consecutive_failures st + 1))).
    repeat split; auto. now apply iteration_request_error.
Qed.

Lemma run_failures (ws : list world) :
  forall st, Forall failed_poll ws ->
  exists evs,
    run_loop' ws st =
    (evs,
     {| consecutive_failures := consecutive_failures st + Z.of_nat (List.length ws);
        notified := notified st |},
     Running) /\
    sleeps evs = waits_from (consecutive_failures st) (List.length ws) /\
    Forall (fun ev => is_notification ev = false) evs.
Proof.
  induction ws as [|w ws IH]; intros st H.
  - exists []. destruct st as [n b]; simpl. rewrite Z.add_0_r. auto.
  - inversion H as [|? ? Hw Hws]; subst.
    destruct (iteration_failed w st Hw) as (evs1 & lg & Q & Hlg & I).
    destruct (IH {| consecutive_failures := consecutive_failures st + 1;
                    notified := notified st |} Hws) as (evs2 & R & S2 & N2).
    cbn [consecutive_failures notified] in R, S2.
    exists ((evs1 ++ [lg; Sleep (backoff (consecutive_failures st + 1))]) ++ evs2).
    cbn [run_loop]. rewrite I, R. repeat split.
    + do 3 f_equal. cbn [List.length]. lia.
    + rewrite !sleeps_app, (quiet_sleeps _ Q), S2.
      destruct lg; try discriminate; reflexivity.
    + apply Forall_app; split; [apply Forall_app; split|]; auto.
      * now apply quiet_silent.
      * repeat constructor. destruct lg; try discriminate; reflexivity.
Qed.

(** *** The flag *)

Lemma iteration_flag (w : world) (st st' : state) (evs : list event)
    (r : res flow) :
  iteration' w st = (evs, st', r) -> notified st' = true ->
  match observed w with
  | Some (e, l) => e < l
  | None => notified st = true
  end.
Proof.
  unfold observed.
  destruct (fetch_enrollment (http w)) as [fevs [[[e l]|]|x]] eqn:F; simpl.
  - destruct (Z.lt_ge_cases e l) as [Hlt|Hge]; [auto|].
    rewrite (iteration_full _ _ _ _ _ F Hge). intros [= _ <- _]. discriminate.
  - rewrite (iteration_absent _ _ _ F). now intros [= _ <- _].
  - destruct x.
    + rewrite (iteration_request_error _ _ _ _ F eq_refl). now intros [= _ <- _].
    + rewrite (iteration_interrupted _ _ _ F). now intros [= _ <- _].
    + rewrite (iteration_uncaught _ _ _ _ F eq_refl eq_refl). now intros [= _ <- _].
    + rewrite (iteration_uncaught _ _ _ _ F eq_refl eq_refl). now intros [= _ <- _].
    + rewrite (iteration_uncaught _ _ _ _ F eq_refl eq_refl). now intros [= _ <- _].
Qed.

Lemma run_loop_flag (ws : list world) :
  forall st0 evs st,
    run_loop' ws st0 = (evs, st, Running) -> notified st = true ->
    match last_observed ws with
    | Some (e, l) => e < l
    | None => notified st0 = true
    end.
Proof.
  induction ws as [|w ws IH]; intros st0 evs st; cbn [run_loop last_observed].
  - now intros [= _ <-].
  - destruct (iteration' w st0) as [[evs1 st1] r] eqn:I.
    destruct (run_loop' ws st1) as [[evs2 st2] s] eqn:R.
    destruct r as [[]|x]; try discriminate;
      intros [= _ <- ->] Hn; specialize (IH _ _ _ R Hn);
      (destruct (last_observed ws) as [[e l]|];
       [exact IH | exact (iteration_flag _ _ _ _ _ I IH)]).
Qed.

(** *** The failure count never goes below zero *)

Lemma iteration_failures_nonneg (w : world) (st st' : state)
    (evs : list event) (r : res flow) :
  iteration' w st = (evs, st', r) ->
  0 <= consecutive_failures st -> 0 <= consecutive_failures st'.
Proof.
  destruct (fetch_enrollment (http w)) as [fevs [[[e l]|]|x]] eqn:F.
  - destruct (Z.lt_ge_cases e l) as [Hlt|Hge].
    + destruct (notify' spot_title (spot_message e l) w) as [nevs [[]|x]] eqn:N.
      * rewrite (iteration_open _ _ _ _ _ _ F Hlt N).
        intros [= _ <- _] _; simpl; lia.
      * rewrite (iteration_open_raise _ _ _ _ _ _ _ F Hlt N).
        destruct x; intros [= _ <- _] _; simpl; lia.
    + rewrite (iteration_full _ _ _ _ _ F Hge). intros [= _ <- _] _; simpl; lia.
  - rewrite (iteration_absent _ _ _ F). intros [= _ <- _] H; simpl; lia.
  - destruct x.
    + rewrite (iteration_request_error _ _ _ _ F eq_refl).
      intros [= _ <- _] H; simpl; lia.
    + rewrite (iteration_interrupted _ _ _ F). now intros [= _ <- _].
    + rewrite (iteration_uncaught _ _ _ _ F eq_refl eq_refl). now intros [= _ <- _].
    + rewrite (iteration_uncaught _ _ _ _ F eq_refl eq_refl). now intros [= _ <- _].
    + rewrite (iteration_uncaught _ _ _ _ F eq_refl eq_refl). now intros [= _ <- _].
Qed.

Lemma run_loop_failures_nonneg (ws : list world) :
  forall st0 evs st s,
    run_loop' ws st0 = (evs, st, s) ->
    0 <= consecutive_failures st0 -> 0 <= consecutive_failures st.
Proof.
  induction ws as [|w ws IH]; intros st0 evs st s; cbn [run_loop].
  - now intros [= _ <- _].
  - destruct (iteration' w st0) as [[evs1 st1] r] eqn:I.
    destruct (run_loop' ws st1) as [[evs2 st2] s2] eqn:R.
    intros H H0. pose proof (iteration_failures_nonneg _ _ _ _ _ I H0) as H1.
    destruct r as [[]|x]; injection H as _ <- _;
      solve [exact H1 | exact (IH _ _ _ _ R H1)].
Qed.

(** *** Claims about the loop controller *)


(** C3. A failed poll increments the failure count and then sleeps for
    min(base * 2^count, max) with the incremented count; over any run of
    failures in a row the waits never decrease and never exceed the maximum
    backoff. *)
Theorem failed_poll_backs_off (w : world) (ws : list world) (st : state) :
  0 <= consecutive_failures st ->
  failed_poll w -> Forall failed_poll ws ->
  (exists evs st',
     iteration' w st = (evs, st', Ret Continue) /\
     consecutive_failures st' = consecutive_failures st + 1 /\
     sleeps evs =
     [Z.min (CHECK_INTERVAL_SECONDS * 2 ^ consecutive_failures st')
            MAX_BACKOFF_SECONDS]) /\
  (exists evs st',
     run_loop' ws st = (evs, st', Running) /\
     consecutive_failures st' =
     consecutive_failures st + Z.of_nat (List.length ws) /\
     sleeps evs = waits_from (consecutive_failures st) (List.length ws) /\
     Sorted Z.le (sleeps evs) /\
     Forall (fun s => s <= MAX_BACKOFF_SECONDS) (sleeps evs)).
Proof.
  intros Hn Hw Hws. split.
  - destruct (iteration_failed w st Hw) as (evs & lg & Q & Hlg & I).
    eexists. eexists. split; [exact I|]. split; [reflexivity|].
    rewrite sleeps_app, (quiet_sleeps _ Q).
    destruct lg; try discriminate; reflexivity.
  - destruct (run_failures ws st Hws) as (evs & R & S & _).
    eexists. eexists. split; [exact R|]. split; [reflexivity|].
    split; [exact S|]. rewrite S.
    split; [now apply waits_sorted | apply waits_bounded].
Qed.

(** C5. In every state the loop reaches, the notified flag is set only if
    the most recent successful poll saw enrolled < limit. A successful poll
    that sees enrolled >= limit while the flag is set clears it, logs the
    "full again" line and sends no notification. *)
Theorem notified_only_while_open (ws : list world) (evs : list event)
    (st : state) :
  run_loop' ws initial = (evs, st, Running) ->
  (notified st = true ->
   exists e l, last_observed ws = Some (e, l) /\ e < l) /\
  (forall w e l, notified st = true -> polled w e l -> l <= e ->
   exists fevs,
     iteration' w st =
     (fevs ++ [status_log e l; full_again_log; Sleep CHECK_INTERVAL_SECONDS],
      {| consecutive_failures := 0; notified := false |}, Ret Continue) /\
     Forall (fun ev => is_notification ev = false)
            (fevs ++ [status_log e l; full_again_log;
                      Sleep CHECK_INTERVAL_SECONDS])).
Proof.
  intros R. split.
  - intros Hn. pose proof (run_loop_flag _ _ _ _ R Hn) as H.
    destruct (last_observed ws) as [[e l]|]; [eauto | discriminate].
  - intros w e l Hn [fevs F] Hle.
    pose proof (fetch_enrollment_quiet (http w)) as Q.
    rewrite F in Q; simpl in Q.
    exists fevs. rewrite (iteration_full _ _ _ _ _ F Hle), Hn. split; [reflexivity|].
    apply Forall_app; split; [now apply quiet_silent | repeat constructor].
Qed.


(** C7, evaluated where it fails. When the alert command cannot be started,
    the exception leaves [notify] before any mail is sent and before
    anything is logged, and it leaves [run] as well: the loop stops at that
    poll. The mail path next to it does catch and log its failures. *)
Theorem alert_failure_escapes (title message : string) :
  notify' title message world_no_osascript
  = ([Osascript (alert_script title message)], Raise OSError) /\
  run_loop' [world_no_osascript; world_open] initial
  = ([Post TIMETABLE_URL; status_log 8 10; spot_log 8 10;
      Osascript (alert_script spot_title (spot_message 8 10))],
     initial, Crashed OSError) /\
  send_email EMAIL_ADDRESS title message None (SmtpRaises OSError)
  = ([Log WARNING "Failed to send email to %s: %s"
          [AStr EMAIL_ADDRESS; AExn OSError]], Ret tt).
Proof. repeat split. Qed.

(** C9. A failed poll, whether the request raised or no pair could be
    extracted, leaves the notified flag as it was and calls the notifier
    not at all: only the failure count changes. *)
Theorem failed_poll_frame (w : world) (st : state) :
  failed_poll w ->
  exists evs,
    iteration' w st =
    (evs,
     {| consecutive_failures := consecutive_failures st + 1;
        notified := notified st |},
     Ret Continue) /\
    notifier_calls evs = 0%nat /\
    Forall (fun ev => is_notification ev = false) evs.
Proof.
  intros Hw. destruct (iteration_failed w st Hw) as (evs & lg & Q & Hlg & I).
  eexists. split; [exact I|].
  assert (Q' : quiet (evs ++ [lg])).
  { apply Forall_app; split; [exact Q | repeat constructor; exact Hlg]. }
  change (evs ++ [lg; Sleep (backoff (consecutive_failures st + 1))])
    with (evs ++ [lg] ++ [Sleep (backoff (consecutive_failures st + 1))]).
  rewrite app_assoc. split.
  - now rewrite notifier_calls_app, (quiet_calls _ Q').
  - apply Forall_app; split; [now apply quiet_silent | repeat constructor].
Qed.

(** *** More on the notifier *)

Lemma count_app (p : event -> bool) (xs ys : list event) :
  count p (xs ++ ys) = (count p xs + count p ys)%nat.
Proof. unfold count. now rewrite filter_app, length_app. Qed.



(** What the events of one call of [notify] hold. *)
Lemma notify_facts (title message : string) (w : world) :
  notifier_calls (fst (notify' title message w)) = 1%nat /\
  count is_request (fst (notify' title message w)) = 0%nat /\
  sleeps (fst (notify' title message w)) = [].
Proof.
  rewrite notify_eq. cbv zeta.
  destruct (alert w); [|repeat split].
  destruct (smtp w) as [|y]; [repeat split|]. destruct y; repeat split.
Qed.


(** *** One iteration, all cases at once *)

(** Splits the goal by how the fetch and the notifier end and rewrites
    [iteration] by the matching equation; the facts on the events of the
    fetch and of the notifier come as premises of each goal. *)
Ltac iteration_cases w st :=
  let F := fresh "F" in
  let N := fresh "N" in
  let Hlt := fresh "Hlt" in
  let Hge := fresh "Hge" in
  let Hb := fresh "Hb" in
  try unfold open_poll; try unfold observed;
  generalize (fetch_enrollment_quiet (http w));
  destruct (fetch_enrollment (http w)) as [fevs [[[e l]|]|x]] eqn:F;
  cbn [fst snd];
  [ destruct (Z.lt_ge_cases e l) as [Hlt|Hge];
    [ assert (Hb : (e <? l) = true) by (now apply Z.ltb_lt);
      rewrite ?Hb;
      generalize (notify_facts spot_title (spot_message e l) w);
      destruct (notify EMAIL_ADDRESS spot_title (spot_message e l) w)
        as [nevs [[]|y]] eqn:N;
      cbn [fst snd];
      [ rewrite (iteration_open w st fevs nevs e l F Hlt N)
      | rewrite (iteration_open_raise w st fevs nevs e l y F Hlt N);
        destruct y ]
    | assert (Hb : (e <? l) = false) by (now apply Z.ltb_ge);
      rewrite ?Hb;
      rewrite (iteration_full w st fevs e l F Hge) ]
  | rewrite (iteration_absent w st fevs F)
  | destruct x;
    [ rewrite (iteration_request_error w st fevs _ F eq_refl)
    | rewrite (iteration_interrupted w st fevs F)
    | rewrite (iteration_uncaught w st fevs _ F eq_refl eq_refl) .. ] ].

Lemma quiet_requests_of_fetch (h : http_outcome) :
  count is_request (fst (fetch_enrollment h)) = 1%nat.
Proof.
  destruct h as [y|cells]; unfold fetch_enrollment; simpl; [reflexivity|].
  destruct (extract_outcomes cells) as [->|[(e & l & ->)|[x ->]]]; reflexivity.
Qed.

Lemma iteration_calls (w : world) (st : state) :
  notifier_calls (fst (fst (iteration' w st)))
  = if open_poll w then 1%nat else 0%nat.
Proof.
  iteration_cases w st; first [intros (NC & _ & _) Q | intros Q];
    cbn [fst]; rewrite ?notifier_calls_app, ?(quiet_calls _ Q), ?NC;
    try reflexivity; destruct (notified st); reflexivity.
Qed.

Lemma iteration_requests (w : world) (st : state) :
  count is_request (fst (fst (iteration' w st))) = 1%nat.
Proof.
  generalize (quiet_requests_of_fetch (http w)).
  iteration_cases w st; first [intros (_ & NR & _) Q R | intros Q R];
    cbn [fst] in R |- *; rewrite ?count_app, ?R, ?NR;
    try reflexivity; destruct (notified st); reflexivity.
Qed.

Lemma backoff_ge_base (n : Z) : 0 <= n -> CHECK_INTERVAL_SECONDS <= backoff n.
Proof.
  intros Hn. unfold backoff. apply Z.min_glb.
  - assert (0 < 2 ^ n) by (apply Z.pow_pos_nonneg; lia).
    unfold CHECK_INTERVAL_SECONDS. lia.
  - unfold CHECK_INTERVAL_SECONDS, MAX_BACKOFF_SECONDS. lia.
Qed.

Lemma backoff_values (n : Z) :
  0 <= n ->
  backoff (n + 1) =
  if n =? 0 then 2 * CHECK_INTERVAL_SECONDS
  else if n =? 1 then 4 * CHECK_INTERVAL_SECONDS
  else MAX_BACKOFF_SECONDS.
Proof.
  intros Hn. destruct (Z.eqb_spec n 0) as [->|H0]; [reflexivity|].
  destruct (Z.eqb_spec n 1) as [->|H1]; [reflexivity|].
  unfold backoff. apply Z.min_r.
  assert (2 ^ 3 <= 2 ^ (n + 1)) by (apply Z.pow_le_mono_r; lia).
  change (2 ^ 3) with 8 in *.
  unfold CHECK_INTERVAL_SECONDS, MAX_BACKOFF_SECONDS. lia.
Qed.

(** An iteration that goes on to the next poll has made its one request
    and ends with its one sleep. *)
Lemma iteration_sleeps_last (w : world) (st st' : state) (evs : list event) :
  iteration' w st = (evs, st', Ret Continue) ->
  0 <= consecutive_failures st ->
  exists pre s,
    evs = pre ++ [Sleep s] /\ sleeps pre = [] /\
    count is_request pre = 1%nat /\
    CHECK_INTERVAL_SECONDS <= s <= MAX_BACKOFF_SECONDS /\
    0 <= consecutive_failures st'.
Proof.
  generalize (quiet_requests_of_fetch (http w)).
  iteration_cases w st; first [intros (_ & NR & NS) Q R | intros Q R];
    cbn [fst] in R; intros [= <- <-] H0.
  - exists (fevs ++ [status_log e l; spot_log e l] ++ nevs),
      CHECK_INTERVAL_SECONDS.
    rewrite <- !app_assoc, !sleeps_app, !count_app, (quiet_sleeps _ Q), R, NS, NR.
    repeat split; cbn; try reflexivity; try discriminate.
  - exists (fevs ++ [status_log e l; spot_log e l] ++ nevs ++
            [request_error_log RequestException (backoff 1)]), (backoff 1).
    rewrite <- !app_assoc, !sleeps_app, !count_app, (quiet_sleeps _ Q), R, NS, NR.
    repeat split; cbn; try reflexivity; try discriminate.
  - exists (fevs ++ [status_log e l] ++
            (if notified st then [full_again_log] else [])),
      CHECK_INTERVAL_SECONDS.
    rewrite <- !app_assoc, !sleeps_app, !count_app, (quiet_sleeps _ Q), R.
    destruct (notified st); repeat split; cbn; try reflexivity; try discriminate.
  - exists (fevs ++ [fetch_failed_log (backoff (consecutive_failures st + 1))]),
      (backoff (consecutive_failures st + 1)).
    rewrite <- !app_assoc, !sleeps_app, !count_app, (quiet_sleeps _ Q), R.
    repeat split; cbn; try reflexivity; try lia.
    + apply backoff_ge_base. lia.
    + apply backoff_le_max.
  - exists (fevs ++ [request_error_log RequestException
                       (backoff (consecutive_failures st + 1))]),
      (backoff (consecutive_failures st + 1)).
    rewrite <- !app_assoc, !sleeps_app, !count_app, (quiet_sleeps _ Q), R.
    repeat split; cbn; try reflexivity; try lia.
    + apply backoff_ge_base. lia.
    + apply backoff_le_max.
Qed.

(** *** Runs of the loop *)


Lemma iteration_not_fallthrough (w : world) (st st' : state)
    (evs : list event) :
  iteration' w st <> (evs, st', Ret Fallthrough).
Proof.
  unfold iteration, lbind.
  destruct (ltry (try_body EMAIL_ADDRESS w) handlers st) as [[evs1 st1] [[]|x]];
    cbn; discriminate.
Qed.

(** How a run that starts with the poll of [w] goes on. *)
Lemma run_loop_cons_inv (w : world) (ws : list world) (st st' : state)
    (evs : list event) (s : status) :
  run_loop' (w :: ws) st = (evs, st', s) ->
  (iteration' w st = (evs, st', Ret Break) /\ s = Stopped) \/
  (exists x, iteration' w st = (evs, st', Raise x) /\ s = Crashed x) \/
  (exists evs1 st1 evs2,
     iteration' w st = (evs1, st1, Ret Continue) /\
     run_loop' ws st1 = (evs2, st', s) /\ evs = evs1 ++ evs2).
Proof.
  cbn [run_loop].
  destruct (iteration' w st) as [[evs1 st1] r] eqn:I.
  destruct r as [[]|x].
  - exfalso. exact (iteration_not_fallthrough _ _ _ _ I).
  - destruct (run_loop' ws st1) as [[evs2 st2] s2] eqn:R.
    intros [= <- <- <-]. right. right. eauto 8.
  - intros [= <- <- <-]. now left.
  - intros [= <- <- <-]. right. left. eauto.
Qed.



Lemma iteration_flag_exact (w : world) (st st' : state) (evs : list event)
    (r : res flow) :
  iteration' w st = (evs, st', r) -> notify_returns w ->
  notified st' =
  match observed w with
  | Some (e, l) => e <? l
  | None => notified st
  end.
Proof.
  iteration_cases w st; first [intros (_ & _ & _) Q | intros Q]; intros [= <- <- <-] H;
    try reflexivity;
    match goal with
    | N : notify _ _ _ _ = (_, Raise _) |- _ =>
        destruct (notify_returns_ret spot_title (spot_message e l) w H)
          as (n' & N' & _); congruence
    | _ => idtac
    end.
  all: cbn; now rewrite ?Hb.
Qed.




(** X11. An iteration that goes on to the next poll has made exactly one
    request and ends with its only sleep, which lasts between the base
    interval and the maximum backoff: the loop never polls twice without
    sleeping in between. *)
Theorem iteration_ends_with_sleep (w : world) (st st' : state)
    (evs : list event) :
  iteration' w st = (evs, st', Ret Continue) ->
  0 <= consecutive_failures st ->
  exists pre s,
    evs = pre ++ [Sleep s] /\ sleeps pre = [] /\
    count is_request pre = 1%nat /\
    CHECK_INTERVAL_SECONDS <= s <= MAX_BACKOFF_SECONDS.
Proof.
  intros I H0.
  destruct (iteration_sleeps_last _ _ _ _ I H0) as (pre & s & E & S & R & B & _).
  exists pre, s. auto.
Qed.

(** X12. In a run that is still going after [n] polls, started from a
    non-negative failure count, exactly [n] requests were made and exactly
    [n] sleeps taken, each between the base interval and the maximum
    backoff. *)
Theorem run_requests_and_sleeps (ws : list world) (st st' : state)
    (evs : list event) :
  run_loop' ws st = (evs, st', Running) ->
  0 <= consecutive_failures st ->
  count is_request evs = List.length ws /\
  List.length (sleeps evs) = List.length ws /\
  Forall (fun s => CHECK_INTERVAL_SECONDS <= s <= MAX_BACKOFF_SECONDS)
         (sleeps evs).
Proof.
  revert st evs. induction ws as [|w ws IH]; intros st evs R H0.
  - injection R as <- _. repeat split. constructor.
  - destruct (run_loop_cons_inv _ _ _ _ _ _ R)
      as [[_ H]|[(y & _ & H)|(evs1 & st1 & evs2 & I & R2 & ->)]];
      try discriminate.
    destruct (iteration_sleeps_last _ _ _ _ I H0)
      as (pre & s & -> & S & C & B & H1).
    destruct (IH _ _ R2 H1) as (IH1 & IH2 & IH3).
    rewrite !count_app, !sleeps_app, S, C, IH1.
    cbn [sleeps app count filter is_request List.length].
    split; [lia|]. split; [now rewrite IH2|].
    constructor; [exact B | exact IH3].
Qed.

(** X13. The wait after a failed poll follows a fixed schedule: twice the
    base interval after a first failure, four times after a second, and
    the maximum backoff from the third failure in a row on. *)
Theorem backoff_schedule (w : world) (st : state) :
  failed_poll w -> 0 <= consecutive_failures st ->
  sleeps (fst (fst (iteration' w st))) =
  [if consecutive_failures st =? 0 then 2 * CHECK_INTERVAL_SECONDS
   else if consecutive_failures st =? 1 then 4 * CHECK_INTERVAL_SECONDS
   else MAX_BACKOFF_SECONDS].
Proof.
  intros Hw H0. destruct (iteration_failed w st Hw) as (evs & lg & Q & Hlg & ->).
  cbn [fst]. rewrite sleeps_app, (quiet_sleeps _ Q), <- (backoff_values _ H0).
  destruct lg; try discriminate; reflexivity.
Qed.

(** X14. As long as the notifier returns, the flag is exact: after any run
    that is still going, [notified] is set if and only if the most recent
    successful poll saw a free seat (and is the initial value if no poll
    succeeded). *)
Theorem notified_exact (ws : list world) (st0 st : state) (evs : list event) :
  run_loop' ws st0 = (evs, st, Running) ->
  Forall notify_returns ws ->
  notified st =
  match last_observed ws with
  | Some (e, l) => e <? l
  | None => notified st0
  end.
Proof.
  revert st0 evs. induction ws as [|w ws IH]; intros st0 evs R H.
  - now injection R as _ <-.
  - inversion H as [|? ? Hw Hws]; subst.
    destruct (run_loop_cons_inv _ _ _ _ _ _ R)
      as [[_ E]|[(y & _ & E)|(evs1 & st1 & evs2 & I & R2 & ->)]];
      try discriminate.
    cbn [last_observed]. rewrite (IH _ _ R2 Hws).
    destruct (last_observed ws) as [[e l]|]; [reflexivity|].
    exact (iteration_flag_exact _ _ _ _ _ I Hw).
Qed.

(** X15. The failure count is the number of failed polls since the last
    successful one: after a successful poll whose iteration completed
    (seat full, or the notifier returned) followed by failed polls only,
    it equals the number of those failed polls. *)
Theorem failures_since_last_success (pre fails : list world) (w : world)
    (e l : Z) (st0 st : state) (evs : list event) :
  run_loop' (pre ++ w :: fails) st0 = (evs, st, Running) ->
  polled w e l -> l <= e \/ notify_returns w ->
  Forall failed_poll fails ->
  consecutive_failures st = Z.of_nat (List.length fails).
Proof.
  intros R [fevs F] Hn Hf. revert st0 evs R.
  induction pre as [|p pre IH]; intros st0 evs R;
    destruct (run_loop_cons_inv _ _ _ _ _ _ R)
      as [[_ E]|[(y & _ & E)|(evs1 & st1 & evs2 & I & R2 & ->)]];
    try discriminate.
  - assert (H1 : consecutive_failures st1 = 0).
    { destruct (Z.lt_ge_cases e l) as [Hlt|Hge].
      - destruct Hn as [Hn|Hn]; [lia|].
        destruct (notify_returns_ret spot_title (spot_message e l) w Hn)
          as (nevs & N & _).
        rewrite (iteration_open _ st0 _ _ _ _ F Hlt N) in I.
        now injection I as _ <-.
      - rewrite (iteration_full _ st0 _ _ _ F Hge) in I.
        now injection I as _ <-. }
    destruct (run_failures fails st1 Hf) as (evs' & R' & _).
    rewrite R' in R2. injection R2 as _ <-. cbn. lia.
  - exact (IH _ _ R2).
Qed.

(** X16. Over a run that is still going, the notifier was called once for
    every poll that saw a free seat and never otherwise: the number of
    alert commands equals the number of open polls. *)
Theorem run_notifies_every_open_poll (ws : list world) (st st' : state)
    (evs : list event) :
  run_loop' ws st = (evs, st', Running) ->
  notifier_calls evs = List.length (filter open_poll ws).
Proof.
  revert st evs. induction ws as [|w ws IH]; intros st evs R.
  - now injection R as <- _.
  - destruct (run_loop_cons_inv _ _ _ _ _ _ R)
      as [[_ E]|[(y & _ & E)|(evs1 & st1 & evs2 & I & R2 & ->)]];
      try discriminate.
    pose proof (iteration_calls w st) as C. rewrite I in C. cbn [fst] in C.
    rewrite notifier_calls_app, C, (IH _ _ R2). cbn [filter].
    destruct (open_poll w); reflexivity.
Qed.

End Loop.

(** ** The friends' thread *)

Section Friends.

Variable EMAIL_ADDRESS : string.
Variable FRIEND_EMAILS : list string.


End Friends.

(** ** The claims at sample inputs *)

Lemma world_open_polled : polled world_open 8 10.
Proof. exists [Post TIMETABLE_URL]. reflexivity. Defined.

Lemma world_full_polled : polled world_full 10 10.
Proof. exists [Post TIMETABLE_URL]. reflexivity. Defined.

Lemma world_down_failed : failed_poll world_down.
Proof.
  right. exists [Post TIMETABLE_URL], RequestException. split; reflexivity.
Defined.

Lemma world_without_failed : failed_poll world_without.
Proof. left. exists [Post TIMETABLE_URL; not_found_log]. reflexivity. Defined.


Lemma failed_poll_backs_off_witness :
  exists evs st',
    run_loop sample_address [world_down; world_without; world_down] initial
    = (evs, st', Running) /\
    consecutive_failures st' = 3 /\
    sleeps evs = [600; 1200; 1800].
Proof.
  destruct (failed_poll_backs_off sample_address world_down
              [world_down; world_without; world_down] initial)
    as (_ & evs & st' & R & C & S & _).
  - simpl; lia.
  - exact world_down_failed.
  - apply Forall_cons; [exact world_down_failed|].
    apply Forall_cons; [exact world_without_failed|].
    apply Forall_cons; [exact world_down_failed | apply Forall_nil].
  - exists evs, st'. repeat split; assumption.
Defined.

(** The open-then-full scenario. *)
Lemma notified_only_while_open_witness :
  exists fevs,
    iteration sample_address world_full
      {| consecutive_failures := 0; notified := true |} =
    (fevs ++ [status_log 10 10; full_again_log; Sleep CHECK_INTERVAL_SECONDS],
     {| consecutive_failures := 0; notified := false |}, Ret Continue).
Proof.
  destruct (notified_only_while_open sample_address [world_full; world_open]
              (fst (fst (run_loop sample_address [world_full; world_open] initial)))
              {| consecutive_failures := 0; notified := true |} eq_refl)
    as (_ & H).
  destruct (H world_full 10 10 eq_refl world_full_polled) as (fevs & I & _).
  - lia.
  - exists fevs. exact I.
Defined.


Lemma failed_poll_frame_witness :
  exists evs,
    iteration sample_address world_without
      {| consecutive_failures := 2; notified := true |}
    = (evs, {| consecutive_failures := 3; notified := true |}, Ret Continue) /\
    notifier_calls evs = 0%nat.
Proof.
  destruct (failed_poll_frame sample_address world_without
              {| consecutive_failures := 2; notified := true |}
              world_without_failed) as (evs & I & N & _).
  exists evs. split; assumption.
Defined.

(** ** Further properties at sample inputs *)

Lemma world_open_returns : notify_returns world_open.
Proof. split; [exists 0; reflexivity | intros x H; discriminate]. Defined.

Lemma world_full_returns : notify_returns world_full.
Proof. split; [exists 0; reflexivity | intros x H; discriminate]. Defined.

Lemma world_down_returns : notify_returns world_down.
Proof. split; [exists 0; reflexivity | intros x H; discriminate]. Defined.





Lemma iteration_ends_with_sleep_witness :
  exists pre s,
    fst (fst (iteration sample_address world_open initial)) = pre ++ [Sleep s] /\
    sleeps pre = [] /\ count is_request pre = 1%nat /\
    CHECK_INTERVAL_SECONDS <= s <= MAX_BACKOFF_SECONDS.
Proof.
  apply (iteration_ends_with_sleep sample_address world_open initial
           {| consecutive_failures := 0; notified := true |}).
  - reflexivity.
  - simpl. lia.
Defined.

Lemma run_requests_and_sleeps_witness :
  count is_request
    (fst (fst (run_loop sample_address
                 [world_full; world_down; world_open] initial))) = 3%nat.
Proof.
  apply (run_requests_and_sleeps sample_address
           [world_full; world_down; world_open] initial
           {| consecutive_failures := 0; notified := true |}).
  - reflexivity.
  - simpl. lia.
Defined.

Lemma backoff_schedule_witness :
  sleeps (fst (fst (iteration sample_address world_down
                      {| consecutive_failures := 5; notified := false |})))
  = [MAX_BACKOFF_SECONDS].
Proof.
  apply (backoff_schedule sample_address world_down
           {| consecutive_failures := 5; notified := false |}).
  - exact world_down_failed.
  - simpl. lia.
Defined.

Lemma notified_exact_witness :
  notified (snd (fst (run_loop sample_address
                        [world_full; world_open; world_down] initial))) = true.
Proof.
  apply (notified_exact sample_address [world_full; world_open; world_down]
           initial _
           (fst (fst (run_loop sample_address
                        [world_full; world_open; world_down] initial)))).
  - reflexivity.
  - apply Forall_cons; [exact world_full_returns|].
    apply Forall_cons; [exact world_open_returns|].
    apply Forall_cons; [exact world_down_returns | apply Forall_nil].
Defined.

Lemma failures_since_last_success_witness :
  consecutive_failures
    (snd (fst (run_loop sample_address
                 [world_down; world_open; world_down; world_without] initial)))
  = 2.
Proof.
  apply (failures_since_last_success sample_address [world_down]
           [world_down; world_without] world_open 8 10 initial _
           (fst (fst (run_loop sample_address
                 [world_down; world_open; world_down; world_without] initial)))).
  - reflexivity.
  - exact world_open_polled.
  - right. exact world_open_returns.
  - apply Forall_cons; [exact world_down_failed|].
    apply Forall_cons; [exact world_without_failed | apply Forall_nil].
Defined.

Lemma run_notifies_every_open_poll_witness :
  notifier_calls
    (fst (fst (run_loop sample_address
                 [world_open; world_full; world_mail_down] initial))) = 2%nat.
Proof.
  apply (run_notifies_every_open_poll sample_address
           [world_open; world_full; world_mail_down] initial
           {| consecutive_failures := 0; notified := true |}).
  reflexivity.
Defined.

